(** * ACME customer-support router (main.py): a shallow embedding

    The development follows the layout of [main.py]: the pydantic input
    models, the four tool functions, the escalation policy
    [handoff_decision], the four handoff handlers, the dispatch table of
    [main_agent] and the chat loop [main].

    Python [str] values are sequences of Unicode code points; they are
    modelled as [list N].  String literals of the source are written
    [lit "..."]. *)

From stdpp Require Import strings gmap.
From Stdlib Require Import NArith ZArith Ascii String Lia.

(** ** Python strings *)

Abbreviation str := (list N).

(** A source literal (ASCII text) as a sequence of code points. *)
Definition lit (s : string) : str :=
  (λ a, N_of_ascii a) <$> list_ascii_of_string s.
Arguments lit s%_string.

(** [a == b] on [str]. *)
Fixpoint str_eqb (a b : str) : bool :=
  match a, b with
  | [], [] => true
  | x :: a', y :: b' => N.eqb x y && str_eqb a' b'
  | _, _ => false
  end.

(** [s.startswith(p)]. *)
Fixpoint startswith (p s : str) : bool :=
  match p, s with
  | [], _ => true
  | x :: p', y :: s' => N.eqb x y && startswith p' s'
  | _ :: _, [] => false
  end.

(** [sub in s] on [str]: [sub] occurs in [s] as a contiguous run. *)
Fixpoint contains (sub s : str) : bool :=
  startswith sub s ||
  match s with
  | [] => false
  | _ :: s' => contains sub s'
  end.

(** [x in l] for a list of strings: Python compares with [==]. *)
Definition list_contains (x : str) (l : list str) : bool :=
  existsb (str_eqb x) l.

(** ** Pydantic models for inputs (main.py, lines 35-52) *)

Record BillingInput := { customer_id : str; billing_issue : str }.
Record RefundInput := { order_id : str; refund_reason : str }.
Record TechSupportInput := { issue : str }.
Record GeneralInfoInput := { topic : str }.

Record HandoffParams := {
  input_type : str;
  input_filter : option str;
  on_handoff : option str
}.

(** ** Exceptions *)

Inductive ErrorKind := missing | string_type.

Record ErrorDetails := { err_type : ErrorKind; loc : str }.

Inductive exception :=
  | ValidationError (errors : list ErrorDetails)
  | ModelBehaviorError
  | EOFError
  | TypeError
  | OtherError (name : str).

(** ** Tool functions (lines 57-93)

    The four definitions below are the functions as they are written:
    what the agent framework obtains when it invokes a tool.  The
    decorator [function_tool] binds each name to a tool object that
    wraps the function; these objects follow. *)

Definition billing_status_tool (data : BillingInput) : str :=
  lit "Billing for Customer ID " ++ customer_id data ++ lit " regarding '"
  ++ billing_issue data ++ lit "' has been cleared successfully.".

Definition refund_status_tool (data : RefundInput) : str :=
  lit "Refund for Order ID " ++ order_id data
  ++ lit " has been processed successfully "
  ++ lit "due to: " ++ refund_reason data ++ lit ".".

Definition general_info_tool (data : GeneralInfoInput) : str :=
  lit "Here is the information you requested about '" ++ topic data ++ lit "'.".

Definition tech_support_tool (data : TechSupportInput) : str :=
  lit "Here are some steps to troubleshoot your issue with '" ++ issue data
  ++ lit "'.".

(** ** The decorated names

    [@function_tool] replaces each function by a [FunctionTool] object
    holding the tool's name and the function, for the framework to
    invoke.  A [FunctionTool] is not callable: applying the decorated
    name to an argument, which is what the handlers below do, raises
    [TypeError] whatever the argument. *)

Module FunctionTool.
Record t (A : Type) := { name : str; func : A → str }.
Arguments name {A} _.
Arguments func {A} _.
End FunctionTool.

Definition function_tool {A : Type} (name : str) (func : A → str)
    : FunctionTool.t A :=
  {| FunctionTool.name := name; FunctionTool.func := func |}.

Definition billing_status_tool_object : FunctionTool.t BillingInput :=
  function_tool (lit "billing_status_tool") billing_status_tool.

Definition refund_status_tool_object : FunctionTool.t RefundInput :=
  function_tool (lit "refund_status_tool") refund_status_tool.

Definition general_info_tool_object : FunctionTool.t GeneralInfoInput :=
  function_tool (lit "general_info_tool") general_info_tool.

Definition tech_support_tool_object : FunctionTool.t TechSupportInput :=
  function_tool (lit "tech_support_tool") tech_support_tool.

(** The call expression [tool(data)] on a [FunctionTool] object. *)
Definition call_tool_object {A : Type} (tool : FunctionTool.t A) (data : A)
    : exception + str :=
  inl TypeError.

(** ** Handoff decision logic (lines 98-108) *)

Definition escalation_message : str :=
  lit "I am escalating your request to a human agent "
  ++ lit "because it involves a sensitive or complex matter.".

Definition handled_message : str :=
  lit "AI agent handled the query successfully.".

Definition handoff_decision (params : HandoffParams) : str :=
  let sensitive := [lit "legal"; lit "complaint"; lit "technical"] in
  if list_contains (input_type params) sensitive
  then escalation_message
  else handled_message.

(** ** Agent handlers (lines 113-147) *)

(** [RunContextWrapper[None]]: the handlers never inspect it. *)
Definition RunContextWrapper : Type := unit.

(** An f-string [f"<prefix>{tool(data)}"]: the call is evaluated first,
    and an exception it raises leaves the handler; otherwise its result
    is put after the prefix. *)
Definition fstring_prefix (prefix : str) (value : exception + str)
    : exception + str :=
  match value with
  | inl e => inl e
  | inr out => inr (prefix ++ out)
  end.

Definition custom_billing_handler
    (ctx : RunContextWrapper) (data : BillingInput) : exception + str :=
  fstring_prefix (lit "Let me check your billing status... ")
    (call_tool_object billing_status_tool_object data).

Definition custom_refund_handler
    (ctx : RunContextWrapper) (data : RefundInput) : exception + str :=
  fstring_prefix (lit "Let me process your refund... ")
    (call_tool_object refund_status_tool_object data).

Definition custom_tech_support_handler
    (ctx : RunContextWrapper) (data : TechSupportInput) : exception + str :=
  fstring_prefix (lit "Let me assist with your technical issue... ")
    (call_tool_object tech_support_tool_object data).

Definition custom_info_handler
    (ctx : RunContextWrapper) (data : GeneralInfoInput) : exception + str :=
  fstring_prefix (lit "Let me get that information for you... ")
    (call_tool_object general_info_tool_object data).

(** ** Validation of the input models

    The classes of lines 35-47 derive from pydantic's [BaseModel]: every
    field is declared [str] without a default and without any further
    constraint.  The agent framework builds the instance from the JSON
    arguments of a handoff call, so the raw data is a JSON object. *)

#[warnings="-register-all"] Inductive json :=
  | JNull
  | JBool (b : bool)
  | JNumber (n : Z)
  | JString (s : str)
  | JArray (items : list json)
  | JObject (members : list (str * json)).

(** A field annotated [str]: the key must be there and hold a JSON
    string, which is taken as it is (the empty string included). *)
Definition validate_str (field : str) (data : gmap (list N) json)
    : list ErrorDetails + str :=
  match data !! field with
  | None => inl [{| err_type := missing; loc := field |}]
  | Some (JString s) => inr s
  | Some _ => inl [{| err_type := string_type; loc := field |}]
  end.

Definition field_errors {A} (r : list ErrorDetails + A) : list ErrorDetails :=
  match r with inl e => e | inr _ => [] end.

Definition BillingInput_validate (data : gmap (list N) json)
    : exception + BillingInput :=
  match validate_str (lit "customer_id") data,
        validate_str (lit "billing_issue") data with
  | inr c, inr b => inr {| customer_id := c; billing_issue := b |}
  | r1, r2 => inl (ValidationError (field_errors r1 ++ field_errors r2))
  end.

Definition RefundInput_validate (data : gmap (list N) json)
    : exception + RefundInput :=
  match validate_str (lit "order_id") data,
        validate_str (lit "refund_reason") data with
  | inr o, inr r => inr {| order_id := o; refund_reason := r |}
  | r1, r2 => inl (ValidationError (field_errors r1 ++ field_errors r2))
  end.

Definition TechSupportInput_validate (data : gmap (list N) json)
    : exception + TechSupportInput :=
  match validate_str (lit "issue") data with
  | inr i => inr {| issue := i |}
  | r1 => inl (ValidationError (field_errors r1))
  end.

Definition GeneralInfoInput_validate (data : gmap (list N) json)
    : exception + GeneralInfoInput :=
  match validate_str (lit "topic") data with
  | inr t => inr {| topic := t |}
  | r1 => inl (ValidationError (field_errors r1))
  end.

(** The four model classes as values, as they are passed to
    [handoff(input_type=...)]. *)
Inductive InputModel :=
  | BillingInput_cls
  | RefundInput_cls
  | TechSupportInput_cls
  | GeneralInfoInput_cls.

Definition instance (cls : InputModel) : Type :=
  match cls with
  | BillingInput_cls => BillingInput
  | RefundInput_cls => RefundInput
  | TechSupportInput_cls => TechSupportInput
  | GeneralInfoInput_cls => GeneralInfoInput
  end.

Definition model_fields (cls : InputModel) : list str :=
  match cls with
  | BillingInput_cls => [lit "customer_id"; lit "billing_issue"]
  | RefundInput_cls => [lit "order_id"; lit "refund_reason"]
  | TechSupportInput_cls => [lit "issue"]
  | GeneralInfoInput_cls => [lit "topic"]
  end.

Definition model_validate (cls : InputModel) (data : gmap (list N) json)
    : exception + instance cls :=
  match cls with
  | BillingInput_cls => BillingInput_validate data
  | RefundInput_cls => RefundInput_validate data
  | TechSupportInput_cls => TechSupportInput_validate data
  | GeneralInfoInput_cls => GeneralInfoInput_validate data
  end.

(** [model_dump]: the fields of an instance with their values. *)
Definition model_dump (cls : InputModel) : instance cls → list (str * str) :=
  match cls with
  | BillingInput_cls => λ d,
      [(lit "customer_id", customer_id d); (lit "billing_issue", billing_issue d)]
  | RefundInput_cls => λ d,
      [(lit "order_id", order_id d); (lit "refund_reason", refund_reason d)]
  | TechSupportInput_cls => λ d, [(lit "issue", issue d)]
  | GeneralInfoInput_cls => λ d, [(lit "topic", topic d)]
  end.

(** ** Agent definitions and the handoffs of [main_agent] (lines 152-230) *)

Inductive InputFilter := remove_all_tools.

Module Handoff.
Record t (A : Type) := {
  agent : A;
  tool_name_override : str;
  tool_description_override : str;
  input_type : InputModel;
  input_filter : option InputFilter;
  on_handoff : RunContextWrapper → instance input_type → exception + str
}.
Arguments agent {A} _.
Arguments tool_name_override {A} _.
Arguments tool_description_override {A} _.
Arguments input_type {A} _.
Arguments input_filter {A} _.
Arguments on_handoff {A} _ _ _.
End Handoff.

#[warnings="-register-all"] Inductive Agent := mkAgent {
  name : str;
  instructions : str;
  handoffs : list (Handoff.t Agent)
}.

Definition handoff (agent : Agent) (tool_name_override : str)
    (tool_description_override : str) (input_type : InputModel)
    (input_filter : option InputFilter)
    (on_handoff : RunContextWrapper → instance input_type → exception + str)
    : Handoff.t Agent :=
  {| Handoff.agent := agent;
     Handoff.tool_name_override := tool_name_override;
     Handoff.tool_description_override := tool_description_override;
     Handoff.input_type := input_type;
     Handoff.input_filter := input_filter;
     Handoff.on_handoff := on_handoff |}.

Definition billing_agent : Agent :=
  {| name := lit "billing_agent";
     instructions :=
       lit "You are BillingAgent, a polite and professional customer support agent. "
       ++ lit "Confirm billing issues, apologize for any inconvenience, and provide clear next steps.";
     handoffs := [] |}.

Definition refund_agent : Agent :=
  {| name := lit "refund_agent";
     instructions :=
       lit "You are RefundAgent, a courteous and empathetic support agent. "
       ++ lit "Process refund requests, confirm details, and apologize for any inconvenience.";
     handoffs := [] |}.

Definition info_agent : Agent :=
  {| name := lit "info_agent";
     instructions :=
       lit "You are InfoAgent, a helpful FAQ agent. "
       ++ lit "Provide concise and accurate answers to general inquiries about shipping, accounts, and policies.";
     handoffs := [] |}.

Definition tech_support_agent : Agent :=
  {| name := lit "tech_support_agent";
     instructions :=
       lit "You are TechSupportAgent, a knowledgeable and patient support agent. "
       ++ lit "Assist with technical issues, provide troubleshooting steps, and escalate complex problems.";
     handoffs := [] |}.

Definition main_agent : Agent :=
  {| name := lit "main_agent";
     instructions :=
       lit "You are MainSupportAgent. Greet the user warmly, ask how you can assist, "
       ++ lit "and use specialized agents/tools to handle requests about billing, refunds, general info, or technical support. "
       ++ lit "If unsure, ask clarifying questions or escalate politely.";
     handoffs := [
       handoff billing_agent (lit "billing_status_tool")
         (lit "Handles customer billing inquiries.")
         BillingInput_cls (Some remove_all_tools) custom_billing_handler;
       handoff refund_agent (lit "refund_status_tool")
         (lit "Handles refund requests.")
         RefundInput_cls (Some remove_all_tools) custom_refund_handler;
       handoff info_agent (lit "general_info_tool")
         (lit "Provides general FAQs and information.")
         GeneralInfoInput_cls None custom_info_handler;
       handoff tech_support_agent (lit "tech_support_tool")
         (lit "Handles technical support queries.")
         TechSupportInput_cls (Some remove_all_tools) custom_tech_support_handler
     ] |}.

(** ** Dispatch of a handoff call

    The agent framework is not part of the repository; what it does
    with the handoffs of [main_agent] is modelled as follows.  The
    reasoning backend answers a turn either with a message or with a
    call of one of the handoff tools, carrying JSON arguments.  The
    framework looks the tool up among the agent's handoffs, validates
    the arguments against the handoff's [input_type] (a validation
    failure is reported as [ModelBehaviorError]) and calls [on_handoff]
    with the validated instance; an exception raised by [on_handoff]
    propagates, and otherwise the run goes on with the handoff's agent.
    Nothing else of main.py takes part: in particular
    [handoff_decision] is referenced by no handoff, agent or loop.  The
    calls of handlers are recorded, each with the handoff it belongs to
    and the fields of the validated input. *)







(** ** Methods of [str] used by the chat loop *)

(** [c.isspace()] for one code point: the white space of the Unicode
    character database, which is what [strip()] without argument
    removes. *)
Definition isspace (c : N) : bool :=
  ((9 <=? c) && (c <=? 13) || (28 <=? c) && (c <=? 31) || (c =? 32)
   || (c =? 0x85) || (c =? 0xA0) || (c =? 0x1680)
   || (0x2000 <=? c) && (c <=? 0x200A)
   || (c =? 0x2028) || (c =? 0x2029) || (c =? 0x202F) || (c =? 0x205F)
   || (c =? 0x3000))%N.

Fixpoint lstrip (s : str) : str :=
  match s with
  | c :: s' => if isspace c then lstrip s' else s
  | [] => []
  end.

Definition rstrip (s : str) : str := rev (lstrip (rev s)).

Definition strip (s : str) : str := rstrip (lstrip s).

(** The part of the Unicode character database that [lower()] consults
    outside ASCII: the full lower-case mapping of a code point, and
    whether a capital sigma at a given index stands in final position.
    The tables are not part of the program; they are a parameter. *)
Record UnicodeData := {
  tolower_full : N → list N;
  final_sigma : str → nat → bool
}.

Section StrLower.
Variable ucd : UnicodeData.

Definition lower_ucs4 (s : str) (i : nat) (c : N) : list N :=
  if (c =? 0x3A3)%N then [if final_sigma ucd s i then 0x3C2%N else 0x3C3%N]
  else if (c <? 128)%N
       then [if (65 <=? c)%N && (c <=? 90)%N then (c + 32)%N else c]
       else tolower_full ucd c.

(** [s.lower()]. *)
Definition lower (s : str) : str := List.concat (imap (lower_ucs4 s) s).
End StrLower.

(** ** Main chat loop (lines 235-247)

    Standard input is the list of lines still to be read; [input()]
    raises [EOFError] when none is left.  [Runner.run] is the reasoning
    backend together with the agent framework: it is a parameter that
    threads a hidden state and either raises or returns the
    [final_output] of the run.  The loop records what it does as a list
    of events. *)

Inductive event :=
  | Print (s : str)
  | Input (prompt : str)
  | RunnerRun (starting_agent : Agent) (input : str).

Inductive completion := Returned | Raised (e : exception).

Section Main.
Variable ucd : UnicodeData.
Context {World : Type}.
Variable Runner_run : Agent → str → World → World * (exception + str).

(** The test of line 239. *)
Definition is_exit (user_input : str) : bool :=
  str_eqb (lower ucd (strip user_input)) (lit "exit").

Fixpoint main_loop (w : World) (stdin : list str) : list event * completion :=
  match stdin with
  | [] => ([Input (lit "You: ")], Raised EOFError)
  | user_input :: stdin' =>
      if is_exit user_input then
        ([Input (lit "You: ");
          Print (lit "Thank you for contacting ACME Corp. Have a great day!")],
         Returned)
      else
        match Runner_run main_agent user_input w with
        | (_, inl e) =>
            ([Input (lit "You: "); RunnerRun main_agent user_input], Raised e)
        | (w', inr final_output) =>
            let '(tr, c) := main_loop w' stdin' in
            (Input (lit "You: ") :: RunnerRun main_agent user_input
               :: Print (lit "SupportBot: " ++ final_output ++ [10%N]) :: tr,
             c)
        end
  end.

Definition main (w : World) (stdin : list str) : list event * completion :=
  let '(tr, c) := main_loop w stdin in
  (Print (lit "Welcome to ACME Corp Customer Support! Type 'exit' to quit.")
     :: tr, c).
End Main.

(** The inputs handed to [Runner.run], in order. *)
Definition runner_inputs (tr : list event) : list str :=
  omap (λ e, match e with RunnerRun _ i => Some i | _ => None end) tr.

(** What the loop printed, in order. *)
Definition printed (tr : list event) : list str :=
  omap (λ e, match e with Print s => Some s | _ => None end) tr.

(** ** The exit keyword as the specification words it

    The specification asks for the keyword "exit", case-insensitive,
    surrounding white space trimmed.  [spec_is_exit] reads this as:
    after trimming, the line has the four letters of "exit", each in
    either case.  It is compared below with the test [is_exit] of the
    source. *)

Definition same_letter (c k : N) : bool := ((c =? k) || (c =? k - 32))%N.

Fixpoint matches_ignoring_case (s kw : str) : bool :=
  match s, kw with
  | [], [] => true
  | c :: s', k :: kw' => same_letter c k && matches_ignoring_case s' kw'
  | _, _ => false
  end.

Definition spec_is_exit (line : str) : bool :=
  matches_ignoring_case (strip line) (lit "exit").

(** The lower-case mapping of ASCII, as [lower_ucs4] applies it. *)
Definition ascii_lower (c : N) : N :=
  if ((65 <=? c) && (c <=? 90))%N then (c + 32)%N else c.

(** ** Validation of [HandoffParams] (lines 49-52)

    [input_type] is a required [str]; [input_filter] and [on_handoff]
    are [Optional[str]] with default [None]: the key may be absent or
    hold null, and a value that is there must be a string. *)

Definition validate_optional_str (field : str) (data : gmap (list N) json)
    : list ErrorDetails + option str :=
  match data !! field with
  | None => inr None
  | Some JNull => inr None
  | Some (JString s) => inr (Some s)
  | Some _ => inl [{| err_type := string_type; loc := field |}]
  end.

Definition HandoffParams_validate (data : gmap (list N) json)
    : exception + HandoffParams :=
  match validate_str (lit "input_type") data,
        validate_optional_str (lit "input_filter") data,
        validate_optional_str (lit "on_handoff") data with
  | inr t, inr f, inr h =>
      inr {| input_type := t; input_filter := f; on_handoff := h |}
  | r1, r2, r3 =>
      inl (ValidationError (field_errors r1 ++ field_errors r2 ++ field_errors r3))
  end.

(** What validation reports for one declared [str] field, if anything. *)
Definition str_field_error (data : gmap (list N) json) (field : str)
    : option ErrorDetails :=
  match data !! field with
  | None => Some {| err_type := missing; loc := field |}
  | Some (JString _) => None
  | Some _ => Some {| err_type := string_type; loc := field |}
  end.

(** ** Concrete collaborators used in the examples *)

(** A table that leaves every code point outside ASCII as it is.  The
    examples below run on ASCII lines, where no table is consulted. *)
Definition ascii_ucd : UnicodeData :=
  {| tolower_full := λ c, [c]; final_sigma := λ _ _, false |}.

(** A backend whose every run raises. *)
Definition failing_Runner : Agent → str → unit → unit * (exception + str) :=
  λ _ _ w, (w, inl ModelBehaviorError).

(** A backend that answers with the text it was given. *)
Definition echo_Runner : Agent → str → unit → unit * (exception + str) :=
  λ _ user_input w, (w, inr user_input).

(** Arguments of a billing handoff whose customer id is the empty string. *)
Definition billing_arguments_empty_id : gmap (list N) json :=
  <[lit "customer_id" := JString []]>
    {[lit "billing_issue" := JString (lit "late fee")]}.

(** Arguments of a billing handoff with both fields filled in. *)
Definition billing_arguments : gmap (list N) json :=
  <[lit "customer_id" := JString (lit "C-42")]>
    {[lit "billing_issue" := JString (lit "double charge")]}.

(** * Properties *)

Lemma str_eqb_eq (a b : str) : str_eqb a b = true ↔ a = b.
Proof.
  revert b; induction a as [|x a IH]; intros [|y b]; simpl; try (split; congruence).
  rewrite andb_true_iff, N.eqb_eq, IH. split.
  - intros [-> ->]; reflexivity.
  - intros [= -> ->]; auto.
Qed.

Lemma str_eqb_refl (a : str) : str_eqb a a = true.
Proof. by apply str_eqb_eq. Qed.

Lemma str_eqb_neq (a b : str) : str_eqb a b = false ↔ a ≠ b.
Proof.
  rewrite <- str_eqb_eq. destruct (str_eqb a b); split; congruence.
Qed.

Lemma startswith_app (p s : str) : startswith p (p ++ s) = true.
Proof.
  induction p as [|x p IH]; simpl; [done|].
  by rewrite N.eqb_refl, IH.
Qed.

Lemma startswith_inv (p s : str) :
  startswith p s = true → ∃ post, s = p ++ post.
Proof.
  revert s; induction p as [|x p IH]; intros s; simpl.
  - intros _. by exists s.
  - destruct s as [|y s]; [done|].
    rewrite andb_true_iff, N.eqb_eq. intros [-> H].
    destruct (IH _ H) as [post ->]. by exists post.
Qed.

(** [contains] is Python's substring test: it holds exactly when the
    string splits around an occurrence. *)
Lemma contains_spec (sub s : str) :
  contains sub s = true ↔ ∃ pre post, s = pre ++ sub ++ post.
Proof.
  split.
  - induction s as [|c s IH]; simpl; rewrite orb_true_iff.
    + intros [H|H]; [|done].
      destruct (startswith_inv _ _ H) as [post ->]. by exists [], post.
    + intros [H|H].
      * destruct (startswith_inv _ _ H) as [post ->]. by exists [], post.
      * destruct (IH H) as (pre & post & ->). by exists (c :: pre), post.
  - intros (pre & post & ->).
    induction pre as [|c pre IH]; simpl.
    + destruct (sub ++ post) eqn:E; simpl; rewrite <- E, startswith_app; done.
    + by rewrite IH, orb_true_r.
Qed.

Lemma contains_mid (pre sub post : str) :
  contains sub (pre ++ sub ++ post) = true.
Proof. apply contains_spec; eauto. Qed.

(** ** The handlers and their tools *)

(** C1. Each handler is written to return its narration prefix
    followed by the output of its tool, but the name it calls is bound
    by [function_tool] to an object that cannot be called: on every
    context and every input each of the four handlers raises
    [TypeError], and so returns neither that text nor any other. *)
Theorem handlers_raise_TypeError :
  (∀ ctx (b : BillingInput),
     custom_billing_handler ctx b = inl TypeError
     ∧ custom_billing_handler ctx b
       ≠ inr (lit "Let me check your billing status... " ++ billing_status_tool b))
  ∧ (∀ ctx (r : RefundInput),
     custom_refund_handler ctx r = inl TypeError
     ∧ custom_refund_handler ctx r
       ≠ inr (lit "Let me process your refund... " ++ refund_status_tool r))
  ∧ (∀ ctx (t : TechSupportInput),
     custom_tech_support_handler ctx t = inl TypeError
     ∧ custom_tech_support_handler ctx t
       ≠ inr (lit "Let me assist with your technical issue... "
              ++ tech_support_tool t))
  ∧ (∀ ctx (g : GeneralInfoInput),
     custom_info_handler ctx g = inl TypeError
     ∧ custom_info_handler ctx g
       ≠ inr (lit "Let me get that information for you... "
              ++ general_info_tool g)).
Proof. repeat split; discriminate. Qed.

(** C6. For a billing input with non-empty fields, the text returned by
    [billing_status_tool] contains the customer id, the billing issue
    and the phrase "cleared successfully.". *)
Theorem billing_status_tool_contains (b : BillingInput) :
  customer_id b ≠ [] → billing_issue b ≠ [] →
  contains (customer_id b) (billing_status_tool b) = true
  ∧ contains (billing_issue b) (billing_status_tool b) = true
  ∧ contains (lit "cleared successfully.") (billing_status_tool b) = true.
Proof.
  intros _ _. unfold billing_status_tool. repeat split; apply contains_spec.
  - by eexists _, _.
  - exists (lit "Billing for Customer ID " ++ customer_id b ++ lit " regarding '").
    eexists. by rewrite <- !app_assoc.
  - exists (lit "Billing for Customer ID " ++ customer_id b ++ lit " regarding '"
            ++ billing_issue b ++ lit "' has been "), [].
    rewrite <- !app_assoc, app_nil_r. reflexivity.
Qed.

Lemma billing_status_tool_contains_witness :
  let b := {| customer_id := lit "C-42"; billing_issue := lit "double charge" |} in
  contains (lit "C-42") (billing_status_tool b) = true
  ∧ contains (lit "double charge") (billing_status_tool b) = true
  ∧ contains (lit "cleared successfully.") (billing_status_tool b) = true.
Proof.
  intros b. apply (billing_status_tool_contains b); vm_compute; discriminate.
Defined.

(** C7. For a refund input with non-empty fields, the text returned by
    [refund_status_tool] contains the order id, the refund reason and
    the phrase "processed successfully". *)
Theorem refund_status_tool_contains (r : RefundInput) :
  order_id r ≠ [] → refund_reason r ≠ [] →
  contains (order_id r) (refund_status_tool r) = true
  ∧ contains (refund_reason r) (refund_status_tool r) = true
  ∧ contains (lit "processed successfully") (refund_status_tool r) = true.
Proof.
  intros _ _. unfold refund_status_tool. repeat split; apply contains_spec.
  - by eexists _, _.
  - exists (lit "Refund for Order ID " ++ order_id r
            ++ lit " has been processed successfully " ++ lit "due to: ").
    eexists. by rewrite <- !app_assoc.
  - exists (lit "Refund for Order ID " ++ order_id r ++ lit " has been ").
    exists (lit " " ++ lit "due to: " ++ refund_reason r ++ lit ".").
    rewrite <- !app_assoc. reflexivity.
Qed.

Lemma refund_status_tool_contains_witness :
  let r := {| order_id := lit "123"; refund_reason := lit "damaged" |} in
  contains (lit "123") (refund_status_tool r) = true
  ∧ contains (lit "damaged") (refund_status_tool r) = true
  ∧ contains (lit "processed successfully") (refund_status_tool r) = true.
Proof.
  intros r. apply (refund_status_tool_contains r); vm_compute; discriminate.
Defined.

Lemma refund_status_tool_no_full_stop_phrase :
  let r := {| order_id := lit "123"; refund_reason := lit "damaged" |} in
  order_id r ≠ [] ∧ refund_reason r ≠ []
  ∧ refund_status_tool r
    = lit "Refund for Order ID 123 has been processed successfully due to: damaged."
  ∧ contains (lit "processed successfully.") (refund_status_tool r) = false.
Proof. vm_compute. repeat split; discriminate. Qed.

(** ** The escalation policy *)

Lemma messages_differ : escalation_message ≠ handled_message.
Proof. vm_compute. discriminate. Qed.

Lemma handoff_decision_escalates (p : HandoffParams) :
  handoff_decision p = escalation_message
  ↔ input_type p = lit "legal" ∨ input_type p = lit "complaint"
    ∨ input_type p = lit "technical".
Proof.
  unfold handoff_decision, list_contains. simpl existsb.
  rewrite <- !str_eqb_eq.
  destruct (str_eqb (input_type p) (lit "legal")),
           (str_eqb (input_type p) (lit "complaint")),
           (str_eqb (input_type p) (lit "technical")); simpl;
    first [ by (split; [intros _; auto | done])
          | split; [intros H; by destruct messages_differ
                   | intros [?|[?|?]]; discriminate ] ].
Qed.

Lemma handoff_decision_two_messages (p : HandoffParams) :
  handoff_decision p = escalation_message ∨ handoff_decision p = handled_message.
Proof. unfold handoff_decision. destruct (list_contains _ _); auto. Qed.

(** C2. [handoff_decision] escalates exactly the categories legal,
    complaint and technical: on these it returns the escalation message,
    on every other [input_type] the handled-autonomously message (a
    different text), and two inputs of the same category get the same
    decision. *)
Theorem handoff_decision_sensitive_set (p : HandoffParams) :
  (input_type p = lit "legal" ∨ input_type p = lit "complaint"
   ∨ input_type p = lit "technical" →
   handoff_decision p = escalation_message)
  ∧ (input_type p ≠ lit "legal" → input_type p ≠ lit "complaint" →
     input_type p ≠ lit "technical" →
     handoff_decision p = handled_message)
  ∧ escalation_message ≠ handled_message
  ∧ (∀ q, input_type q = input_type p → handoff_decision q = handoff_decision p).
Proof.
  repeat split.
  - apply handoff_decision_escalates.
  - intros H1 H2 H3.
    destruct (handoff_decision_two_messages p) as [H|H]; [|done].
    apply handoff_decision_escalates in H. tauto.
  - apply messages_differ.
  - intros q Hq. unfold handoff_decision. by rewrite Hq.
Qed.

Lemma handoff_decision_sensitive_set_witness :
  handoff_decision
    {| input_type := lit "complaint"; input_filter := None; on_handoff := None |}
  = escalation_message
  ∧ handoff_decision
      {| input_type := lit "billing"; input_filter := None; on_handoff := None |}
    = handled_message.
Proof.
  split.
  - apply (proj1 (handoff_decision_sensitive_set
                    {| input_type := lit "complaint"; input_filter := None;
                       on_handoff := None |})).
    right; left; reflexivity.
  - apply (proj1 (proj2 (handoff_decision_sensitive_set
                           {| input_type := lit "billing"; input_filter := None;
                              on_handoff := None |})));
      vm_compute; discriminate.
Defined.

(** C3. On the category name "tech_support" the policy does not
    escalate: it returns the handled-autonomously message and not the
    escalation message, since the sensitive list holds "technical". *)
Theorem handoff_decision_tech_support (f h : option str) :
  let p := {| input_type := lit "tech_support"; input_filter := f;
              on_handoff := h |} in
  handoff_decision p = handled_message
  ∧ handoff_decision p ≠ escalation_message
  ∧ list_contains (lit "technical")
      [lit "legal"; lit "complaint"; lit "technical"] = true
  ∧ list_contains (input_type p)
      [lit "legal"; lit "complaint"; lit "technical"] = false.
Proof.
  intros p. assert (handoff_decision p = handled_message) as E by reflexivity.
  repeat split; try reflexivity.
  rewrite E. intros H. by apply messages_differ.
Qed.

(** C10. The decision depends on [input_type] alone: two parameter
    records with the same [input_type] and any [input_filter] and
    [on_handoff] get the same text, and that text is one of the two
    fixed messages. *)
Theorem handoff_decision_only_input_type
    (t : str) (f1 f2 h1 h2 : option str) :
  handoff_decision {| input_type := t; input_filter := f1; on_handoff := h1 |}
  = handoff_decision {| input_type := t; input_filter := f2; on_handoff := h2 |}
  ∧ (handoff_decision {| input_type := t; input_filter := f1; on_handoff := h1 |}
     = escalation_message
     ∨ handoff_decision {| input_type := t; input_filter := f1; on_handoff := h1 |}
       = handled_message).
Proof. split; [reflexivity | apply handoff_decision_two_messages]. Qed.

(** ** Construction of the input models *)

Lemma validate_str_inr (f : str) (data : gmap (list N) json) (s : str) :
  validate_str f data = inr s ↔ data !! f = Some (JString s).
Proof.
  unfold validate_str. destruct (data !! f) as [[]|]; split; congruence.
Qed.

Lemma validate_str_inl (f : str) (data : gmap (list N) json) l :
  validate_str f data = inl l → l ≠ [].
Proof.
  unfold validate_str. destruct (data !! f) as [[]|]; intros [= <-]; done.
Qed.

(** C5. For each of the four input models, construction
    succeeds exactly when every declared field is present and holds a
    string; the instance then carries these strings as they are.  When
    a field is missing or holds a value of another type, construction
    fails with a [ValidationError] that lists at least one error, and no
    instance is produced.  An empty string is a string: it is accepted. *)
Theorem model_validate_spec (cls : InputModel) (data : gmap (list N) json) :
  (Forall (λ f, ∃ s, data !! f = Some (JString s)) (model_fields cls) →
   ∃ v, model_validate cls data = inr v
        ∧ Forall (λ fs, data !! fs.1 = Some (JString fs.2)) (model_dump cls v))
  ∧ (¬ Forall (λ f, ∃ s, data !! f = Some (JString s)) (model_fields cls) →
     ∃ errs, errs ≠ [] ∧ model_validate cls data = inl (ValidationError errs)).
Proof.
  split.
  - intros H.
    destruct cls; cbn [model_fields model_validate model_dump instance] in *;
      unfold BillingInput_validate, RefundInput_validate,
        TechSupportInput_validate, GeneralInfoInput_validate;
      repeat match goal with
        | H : Forall _ (_ :: _) |- _ =>
            apply Forall_cons in H; destruct H as [[? ?%validate_str_inr] H]
        end;
      repeat match goal with H : validate_str _ _ = _ |- _ => rewrite H end;
      eexists; (split; [reflexivity|]);
      repeat constructor; cbn [fst snd customer_id billing_issue order_id
                                refund_reason issue topic];
      by apply validate_str_inr.
  - intros H.
    destruct cls; cbn [model_fields model_validate instance] in *;
      unfold BillingInput_validate, RefundInput_validate,
        TechSupportInput_validate, GeneralInfoInput_validate;
      repeat match goal with
        | |- context [validate_str ?f data] =>
            let E := fresh "E" in
            destruct (validate_str f data) eqn:E;
            [apply validate_str_inl in E | apply validate_str_inr in E]
        end;
      try solve [exfalso; apply H; repeat constructor; eauto];
      eexists; (split; [|reflexivity]); simpl;
      rewrite ?app_nil_r; try done;
      intros ?%app_eq_nil; tauto.
Qed.

Lemma model_validate_spec_witness :
  ∃ v, model_validate BillingInput_cls billing_arguments = inr v
       ∧ Forall (λ fs, billing_arguments !! fs.1 = Some (JString fs.2))
           (model_dump BillingInput_cls v).
Proof.
  apply (proj1 (model_validate_spec BillingInput_cls billing_arguments)).
  repeat constructor; eexists; vm_compute; reflexivity.
Defined.

Lemma empty_customer_id_accepted :
  billing_arguments_empty_id !! lit "customer_id" = Some (JString [])
  ∧ model_validate BillingInput_cls billing_arguments_empty_id
    = inr {| customer_id := []; billing_issue := lit "late fee" |}.
Proof. split; vm_compute; reflexivity. Qed.

(** ** Dispatch and escalation *)






(** ** The chat loop *)

Section MainProperties.
Variable ucd : UnicodeData.
Context {World : Type}.
Variable Runner_run : Agent → str → World → World * (exception + str).

Local Abbreviation exit_kw := (is_exit ucd).
Local Abbreviation loop := (main_loop ucd Runner_run).
Local Abbreviation chat := (main ucd Runner_run).
Local Abbreviation no_exit := (Forall (λ l, is_exit ucd l = false)).

Lemma runner_inputs_turn p a l s tr :
  runner_inputs (Input p :: RunnerRun a l :: Print s :: tr)
  = l :: runner_inputs tr.
Proof. reflexivity. Qed.

Lemma printed_turn p a l s tr :
  printed (Input p :: RunnerRun a l :: Print s :: tr) = s :: printed tr.
Proof. reflexivity. Qed.

Lemma main_loop_exit w x stdin :
  exit_kw x = true →
  loop w (x :: stdin)
  = ([Input (lit "You: ");
      Print (lit "Thank you for contacting ACME Corp. Have a great day!")],
     Returned).
Proof. intros H. cbn [main_loop]. by rewrite H. Qed.

Lemma main_loop_raise w w' l e stdin :
  exit_kw l = false → Runner_run main_agent l w = (w', inl e) →
  loop w (l :: stdin)
  = ([Input (lit "You: "); RunnerRun main_agent l], Raised e).
Proof. intros H E. cbn [main_loop]. by rewrite H, E. Qed.

Lemma main_loop_reply w w' l out stdin :
  exit_kw l = false → Runner_run main_agent l w = (w', inr out) →
  loop w (l :: stdin)
  = (Input (lit "You: ") :: RunnerRun main_agent l
       :: Print (lit "SupportBot: " ++ out ++ [10%N]) :: (loop w' stdin).1,
     (loop w' stdin).2).
Proof.
  intros H E. cbn [main_loop]. rewrite H, E.
  by destruct (main_loop _ _ w' stdin).
Qed.

Lemma main_fst w stdin :
  runner_inputs (chat w stdin).1 = runner_inputs (loop w stdin).1.
Proof. unfold main. by destruct (main_loop _ _ w stdin). Qed.

Lemma main_snd w stdin : (chat w stdin).2 = (loop w stdin).2.
Proof. unfold main. by destruct (main_loop _ _ w stdin). Qed.

Lemma main_loop_until_exit pre x rest : ∀ w,
  no_exit pre → exit_kw x = true →
  runner_inputs (loop w (pre ++ x :: rest)).1 `prefix_of` pre
  ∧ loop w (pre ++ x :: rest) = loop w (pre ++ [x]).
Proof.
  induction pre as [|l pre IH]; intros w Hpre Hx; simpl app.
  - rewrite !main_loop_exit by done. split; [apply prefix_nil | done].
  - apply Forall_cons in Hpre as [Hl Hpre].
    destruct (Runner_run main_agent l w) as [w' [e|out]] eqn:E.
    + rewrite !(main_loop_raise _ _ _ _ _ Hl E). split; [|done].
      cbn. apply prefix_cons, prefix_nil.
    + rewrite !(main_loop_reply _ _ _ _ _ Hl E).
      destruct (IH w' Hpre Hx) as [IH1 IH2]. rewrite <- IH2. split; [|done].
      cbn [fst]. rewrite runner_inputs_turn. by apply prefix_cons.
Qed.

Lemma main_loop_returns pre x rest : ∀ w,
  no_exit pre → exit_kw x = true →
  (∀ l w0, ∃ w1 out, Runner_run main_agent l w0 = (w1, inr out)) →
  (loop w (pre ++ x :: rest)).2 = Returned
  ∧ runner_inputs (loop w (pre ++ x :: rest)).1 = pre
  ∧ last (printed (loop w (pre ++ x :: rest)).1)
    = Some (lit "Thank you for contacting ACME Corp. Have a great day!").
Proof.
  intros w Hpre Hx Hrun. revert w.
  induction pre as [|l pre IH]; intros w; simpl app.
  - by rewrite main_loop_exit.
  - apply Forall_cons in Hpre as [Hl Hpre].
    destruct (Hrun l w) as (w' & out & E).
    rewrite (main_loop_reply _ _ _ _ _ Hl E).
    destruct (IH Hpre w') as (IH1 & IH2 & IH3). cbn [fst snd].
    rewrite runner_inputs_turn, printed_turn, IH2.
    split; [done|]. split; [done|].
    destruct (printed _) eqn:Ep; [done|]. exact IH3.
Qed.

Lemma main_loop_completion : ∀ stdin w,
  match (loop w stdin).2 with
  | Returned =>
      ∃ pre x rest, stdin = pre ++ x :: rest ∧ no_exit pre ∧ exit_kw x = true
        ∧ runner_inputs (loop w stdin).1 = pre
  | Raised e =>
      (e = EOFError ∧ no_exit stdin
       ∧ runner_inputs (loop w stdin).1 = stdin)
      ∨ (∃ pre y rest w0 w1,
           stdin = pre ++ y :: rest ∧ no_exit (pre ++ [y])
           ∧ Runner_run main_agent y w0 = (w1, inl e)
           ∧ runner_inputs (loop w stdin).1 = pre ++ [y])
  end.
Proof.
  induction stdin as [|l stdin IH]; intros w.
  - cbn. left. by repeat split.
  - destruct (exit_kw l) eqn:Hl.
    { rewrite main_loop_exit by done. cbn.
      exists [], l, stdin. by repeat split. }
    destruct (Runner_run main_agent l w) as [w' [e|out]] eqn:E.
    { rewrite (main_loop_raise _ _ _ _ _ Hl E). cbn. right.
      exists [], l, stdin, w, w'. repeat split; try done.
      by apply Forall_singleton. }
    rewrite (main_loop_reply _ _ _ _ _ Hl E). cbn [fst snd].
    specialize (IH w'). destruct (loop w' stdin).2 as [|e].
    + destruct IH as (pre & x & rest & -> & Hpre & Hx & Hin).
      exists (l :: pre), x, rest. repeat split; try done.
      * by apply Forall_cons.
      * by rewrite runner_inputs_turn, Hin.
    + destruct IH as [(-> & Hall & Hin) | (pre & y & rest & w0 & w1 & -> & Hall & Hy & Hin)].
      * left. repeat split;
          [by apply Forall_cons | by rewrite runner_inputs_turn, Hin].
      * right. exists (l :: pre), y, rest, w0, w1. repeat split; try done.
        -- by apply Forall_cons.
        -- by rewrite runner_inputs_turn, Hin.
Qed.

(** The loop up to the first line that passes the exit test of the
    source. *)
Lemma main_until_exit w pre x rest :
  no_exit pre → exit_kw x = true →
  runner_inputs (chat w (pre ++ x :: rest)).1 `prefix_of` pre
  ∧ chat w (pre ++ x :: rest) = chat w (pre ++ [x])
  ∧ ((∀ l w0, ∃ w1 out, Runner_run main_agent l w0 = (w1, inr out)) →
     (chat w (pre ++ x :: rest)).2 = Returned
     ∧ runner_inputs (chat w (pre ++ x :: rest)).1 = pre
     ∧ last (printed (chat w (pre ++ x :: rest)).1)
       = Some (lit "Thank you for contacting ACME Corp. Have a great day!")).
Proof.
  intros Hpre Hx.
  destruct (main_loop_until_exit pre x rest w Hpre Hx) as [H1 H2].
  split; [by rewrite main_fst|]. split.
  { unfold main. by rewrite H2. }
  intros Hrun.
  destruct (main_loop_returns pre x rest w Hpre Hx Hrun) as (R1 & R2 & R3).
  rewrite main_snd, main_fst. split; [done|]. split; [done|].
  unfold main. destruct (main_loop _ _ w _) as [tr c].
  cbn [fst] in *. change (printed (Print ?s :: tr)) with (s :: printed tr).
  destruct (printed tr); [done | exact R3].
Qed.

(** C4. A turn on a line that is not the exit keyword
    prints a reply and goes on exactly when [Runner.run] returns; when
    [Runner.run] raises, the exception leaves [main] at once, as the
    loop has no handler.  Hence [main] returns only at the first exit
    line, and otherwise ends in an exception: the one raised by
    [Runner.run] on some line, or [EOFError] once the input is used
    up. *)
Theorem main_completion w stdin :
  (∀ l w' out, exit_kw l = false →
     Runner_run main_agent l w = (w', inr out) →
     loop w (l :: stdin)
     = (Input (lit "You: ") :: RunnerRun main_agent l
          :: Print (lit "SupportBot: " ++ out ++ [10%N])
          :: (loop w' stdin).1,
        (loop w' stdin).2))
  ∧ (∀ l w' e, exit_kw l = false →
       Runner_run main_agent l w = (w', inl e) →
       chat w (l :: stdin)
       = ([Print (lit "Welcome to ACME Corp Customer Support! Type 'exit' to quit.");
           Input (lit "You: "); RunnerRun main_agent l], Raised e))
  ∧ match (chat w stdin).2 with
    | Returned =>
        ∃ pre x rest, stdin = pre ++ x :: rest ∧ no_exit pre
          ∧ exit_kw x = true ∧ runner_inputs (chat w stdin).1 = pre
    | Raised e =>
        (e = EOFError ∧ no_exit stdin ∧ runner_inputs (chat w stdin).1 = stdin)
        ∨ (∃ pre y rest w0 w1,
             stdin = pre ++ y :: rest ∧ no_exit (pre ++ [y])
             ∧ Runner_run main_agent y w0 = (w1, inl e)
             ∧ runner_inputs (chat w stdin).1 = pre ++ [y])
    end.
Proof.
  split; [|split].
  - intros l w' out Hl E. by apply main_loop_reply.
  - intros l w' e Hl E. unfold main.
    by rewrite (main_loop_raise _ _ _ _ _ Hl E).
  - rewrite main_snd, main_fst. apply main_loop_completion.
Qed.
End MainProperties.

(** ** The exit test against its specification *)

Section ExitKeyword.
Variable ucd : UnicodeData.

(** No code point outside ASCII has a lower-case form written with the
    letters of "exit" alone.  This holds of the Unicode tables: the only
    such code points with ASCII in their lower-case form are U+212A,
    which gives "k", and U+0130, which gives "i" followed by U+0307. *)
Hypothesis tolower_full_not_exit :
  ∀ c, (128 ≤ c)%N → ∃ d, d ∈ tolower_full ucd c ∧ d ∉ lit "exit".

Lemma not_in_exit (d : N) :
  d ∈ lit "exit" → d = 101%N ∨ d = 120%N ∨ d = 105%N ∨ d = 116%N.
Proof.
  change (lit "exit") with [101; 120; 105; 116]%N. intros H.
  repeat (apply elem_of_cons in H as [H|H]; [tauto|]).
  by apply elem_of_nil in H.
Qed.

Lemma lower_ucs4_exit (s : str) (i : nat) (c : N) :
  Forall (λ d, d ∈ lit "exit") (lower_ucs4 ucd s i c) →
  lower_ucs4 ucd s i c = [ascii_lower c].
Proof.
  unfold lower_ucs4, ascii_lower.
  destruct (c =? 931)%N eqn:Es.
  { intros H%Forall_cons_1. destruct H as [H%not_in_exit _].
    destruct (final_sigma ucd s i); lia. }
  destruct (c <? 128)%N eqn:Ea; [done|].
  apply N.ltb_ge in Ea. intros H.
  destruct (tolower_full_not_exit c Ea) as (d & Hd & Hn).
  rewrite Forall_forall in H. by destruct Hn; apply H.
Qed.

Lemma imap_lower_exit (l : str) : ∀ g : nat → N → list N,
  (∀ i c, Forall (λ d, d ∈ lit "exit") (g i c) → g i c = [ascii_lower c]) →
  Forall (λ d, d ∈ lit "exit") (List.concat (imap g l)) →
  List.concat (imap g l) = ascii_lower <$> l.
Proof.
  induction l as [|c l IH]; intros g Hg H; [done|].
  cbn [imap List.concat] in *. apply Forall_app in H as [H1 H2].
  rewrite (Hg _ _ H1). cbn. f_equal. apply IH; [|done].
  intros i d. apply Hg.
Qed.

Lemma lower_exit (t : str) :
  lower ucd t = lit "exit" → ascii_lower <$> t = lit "exit".
Proof.
  intros H. rewrite <- H. symmetry. apply imap_lower_exit.
  - intros i c. apply lower_ucs4_exit.
  - fold (lower ucd t). rewrite H. by repeat constructor.
Qed.

Lemma same_letter_iff (c k : N) :
  (97 ≤ k ≤ 122)%N → same_letter c k = true ↔ ascii_lower c = k.
Proof.
  intros Hk. unfold same_letter, ascii_lower.
  rewrite orb_true_iff, !N.eqb_eq.
  destruct (65 <=? c)%N eqn:E1, (c <=? 90)%N eqn:E2; simpl;
    rewrite ?N.leb_le, ?N.leb_gt in *; lia.
Qed.

(** On every line the test of the source agrees with the reading of
    the specification. *)
Lemma is_exit_spec (line : str) : is_exit ucd line = spec_is_exit line.
Proof.
  unfold is_exit, spec_is_exit. generalize (strip line) as t. intros t.
  apply eq_true_iff_eq. rewrite str_eqb_eq.
  change (lit "exit") with [101; 120; 105; 116]%N.
  split.
  - intros H%lower_exit. change (lit "exit") with [101; 120; 105; 116]%N in H.
    destruct t as [|c1 [|c2 [|c3 [|c4 [|c5 t]]]]]; try discriminate H.
    injection H as H1 H2 H3 H4. cbn [matches_ignoring_case].
    rewrite !andb_true_iff, !same_letter_iff by lia. tauto.
  - destruct t as [|c1 [|c2 [|c3 [|c4 [|c5 t]]]]]; cbn [matches_ignoring_case];
      rewrite ?andb_false_r, ?andb_true_r; try discriminate.
    rewrite !andb_true_iff. unfold same_letter. rewrite !orb_true_iff, !N.eqb_eq.
    intros ([-> | ->] & [-> | ->] & [-> | ->] & [-> | ->]); reflexivity.
Qed.
End ExitKeyword.

Lemma ascii_ucd_not_exit :
  ∀ c, (128 ≤ c)%N → ∃ d, d ∈ tolower_full ascii_ucd c ∧ d ∉ lit "exit".
Proof.
  intros c Hc. exists c. split; [apply list_elem_of_here|].
  change (lit "exit") with [101; 120; 105; 116]%N.
  intros H. repeat (apply elem_of_cons in H as [H|H]; [lia|]).
  by apply elem_of_nil in H.
Qed.

Section ExitKeywordLoop.
Variable ucd : UnicodeData.
Context {World : Type}.
Variable Runner_run : Agent → str → World → World * (exception + str).
Hypothesis tolower_full_not_exit :
  ∀ c, (128 ≤ c)%N → ∃ d, d ∈ tolower_full ucd c ∧ d ∉ lit "exit".

(** C8. A line that is the exit keyword (trimmed of surrounding white
    space it reads "exit" in any mix of cases) ends the loop: the
    farewell is printed, [main] returns, and [Runner.run] is not called
    for that line nor is anything read after it.  For any other line
    [Runner.run] is called exactly once, with that line; when the call
    returns, its reply is printed and the loop goes on with the next
    line, and when the call raises, the loop ends with that exception.
    So a session of such lines followed by an exit line, on which every
    call returns, gives every one of these lines to [Runner.run] once,
    in order, and returns at the exit line. *)
Theorem main_exit_keyword (w : World) (line : str) (rest : list str) :
  (spec_is_exit line = true →
   main_loop ucd Runner_run w (line :: rest)
   = ([Input (lit "You: ");
       Print (lit "Thank you for contacting ACME Corp. Have a great day!")],
      Returned))
  ∧ (spec_is_exit line = false →
     ∀ w' result, Runner_run main_agent line w = (w', result) →
     main_loop ucd Runner_run w (line :: rest)
     = match result with
       | inr final_output =>
           (Input (lit "You: ") :: RunnerRun main_agent line
              :: Print (lit "SupportBot: " ++ final_output ++ [10%N])
              :: (main_loop ucd Runner_run w' rest).1,
            (main_loop ucd Runner_run w' rest).2)
       | inl e =>
           ([Input (lit "You: "); RunnerRun main_agent line], Raised e)
       end)
  ∧ (∀ pre : list str,
       Forall (λ l, spec_is_exit l = false) pre → spec_is_exit line = true →
       (∀ l w0, ∃ w1 out, Runner_run main_agent l w0 = (w1, inr out)) →
       (main ucd Runner_run w (pre ++ line :: rest)).2 = Returned
       ∧ runner_inputs (main ucd Runner_run w (pre ++ line :: rest)).1 = pre
       ∧ last (printed (main ucd Runner_run w (pre ++ line :: rest)).1)
         = Some (lit "Thank you for contacting ACME Corp. Have a great day!")).
Proof.
  split; [|split].
  - intros Hx. apply main_loop_exit. by rewrite is_exit_spec.
  - intros Hl w' [e|out] E.
    + apply (main_loop_raise _ _ _ w'); [by rewrite is_exit_spec | done].
    + apply main_loop_reply; [by rewrite is_exit_spec | done].
  - intros pre Hpre Hx Hrun. apply main_until_exit; [| by rewrite is_exit_spec | done].
    eapply Forall_impl; [exact Hpre|].
    intros l Hl. by rewrite is_exit_spec.
Qed.
End ExitKeywordLoop.

(** ** The loop on concrete sessions *)

Example is_exit_examples :
  is_exit ascii_ucd (lit "exit") = true
  ∧ is_exit ascii_ucd (lit "  Exit ") = true
  ∧ is_exit ascii_ucd (lit "exit now") = false
  ∧ is_exit ascii_ucd (lit "") = false
  ∧ is_exit ascii_ucd (lit "   ") = false.
Proof. by repeat split. Qed.

Lemma main_exit_keyword_witness :
  main_loop ascii_ucd echo_Runner tt [lit "EXIT  "; lit "ignored"]
  = ([Input (lit "You: ");
      Print (lit "Thank you for contacting ACME Corp. Have a great day!")],
     Returned)
  ∧ main_loop ascii_ucd failing_Runner tt [lit "hello"; lit "EXIT  "]
    = ([Input (lit "You: "); RunnerRun main_agent (lit "hello")],
       Raised ModelBehaviorError)
  ∧ runner_inputs
      (main ascii_ucd echo_Runner tt
         ([lit "hello"; lit "  "] ++ lit "EXIT  " :: [lit "ignored"])).1
    = [lit "hello"; lit "  "].
Proof.
  split; [|split].
  - apply (proj1 (main_exit_keyword ascii_ucd echo_Runner ascii_ucd_not_exit
                    tt (lit "EXIT  ") [lit "ignored"])).
    reflexivity.
  - apply (proj1 (proj2 (main_exit_keyword ascii_ucd failing_Runner
                           ascii_ucd_not_exit tt (lit "hello") [lit "EXIT  "]))
             eq_refl tt (inl ModelBehaviorError)).
    reflexivity.
  - apply (proj2 (proj2 (main_exit_keyword ascii_ucd echo_Runner
                           ascii_ucd_not_exit tt (lit "EXIT  ") [lit "ignored"]))
             [lit "hello"; lit "  "]).
    + repeat constructor.
    + reflexivity.
    + intros l w0. by exists w0, l.
Defined.

Lemma runner_error_stops_the_loop :
  spec_is_exit (lit "hello") = false
  ∧ spec_is_exit (lit "world") = false
  ∧ (main ascii_ucd failing_Runner tt
       [lit "hello"; lit "world"; lit "EXIT  "]).2
    = Raised ModelBehaviorError
  ∧ runner_inputs
      (main ascii_ucd failing_Runner tt
         [lit "hello"; lit "world"; lit "EXIT  "]).1
    = [lit "hello"].
Proof. by repeat split. Qed.

Lemma main_completion_witness :
  main ascii_ucd failing_Runner tt [lit "hello"; lit "exit"]
  = ([Print (lit "Welcome to ACME Corp Customer Support! Type 'exit' to quit.");
      Input (lit "You: "); RunnerRun main_agent (lit "hello")],
     Raised ModelBehaviorError)
  ∧ main_loop ascii_ucd echo_Runner tt [lit "hello"; lit "exit"]
    = (Input (lit "You: ") :: RunnerRun main_agent (lit "hello")
         :: Print (lit "SupportBot: " ++ lit "hello" ++ [10%N])
         :: (main_loop ascii_ucd echo_Runner tt [lit "exit"]).1,
       (main_loop ascii_ucd echo_Runner tt [lit "exit"]).2).
Proof.
  split.
  - apply (proj1 (proj2 (main_completion ascii_ucd failing_Runner tt [lit "exit"]))
             (lit "hello") tt ModelBehaviorError); reflexivity.
  - apply (proj1 (main_completion ascii_ucd echo_Runner tt [lit "exit"])
             (lit "hello") tt (lit "hello")); reflexivity.
Defined.

Lemma backend_error_ends_the_loop :
  is_exit ascii_ucd (lit "hello") = false
  ∧ (main ascii_ucd failing_Runner tt [lit "hello"; lit "exit"]).2
    = Raised ModelBehaviorError
  ∧ printed (main ascii_ucd failing_Runner tt [lit "hello"; lit "exit"]).1
    = [lit "Welcome to ACME Corp Customer Support! Type 'exit' to quit."]
  ∧ runner_inputs (main ascii_ucd failing_Runner tt [lit "hello"; lit "exit"]).1
    = [lit "hello"].
Proof. by repeat split. Qed.

(** * Further properties of the tools *)

(** X1. The reply of [general_info_tool] is the fixed opening, the
    topic verbatim, and the closing "'." and nothing else; so it
    contains the topic, is 47 characters longer than the topic, and the
    topic can be read back from it: two inputs with the same reply are
    equal. *)
Theorem general_info_tool_topic :
  (∀ g, general_info_tool g
        = lit "Here is the information you requested about '"
          ++ topic g ++ lit "'."
        ∧ contains (topic g) (general_info_tool g) = true
        ∧ List.length (general_info_tool g) = (List.length (topic g) + 47)%nat)
  ∧ (∀ g1 g2, general_info_tool g1 = general_info_tool g2 → g1 = g2).
Proof.
  split.
  - intros g. unfold general_info_tool. split; [|split].
    + reflexivity.
    + apply contains_mid.
    + rewrite !length_app. cbn. lia.
  - intros [t1] [t2]. unfold general_info_tool. cbn [topic].
    intros H%app_inv_head%app_inv_tail. by subst.
Qed.

Lemma general_info_tool_topic_witness :
  {| topic := lit "shipping" |} = {| topic := lit "shipping" |}.
Proof.
  apply (proj2 general_info_tool_topic). reflexivity.
Defined.

(** X2. The reply of [tech_support_tool] is the fixed opening, the
    issue verbatim, and the closing "'." and nothing else; so it
    contains the issue, is 55 characters longer than the issue, and the
    issue can be read back from it: two inputs with the same reply are
    equal. *)
Theorem tech_support_tool_issue :
  (∀ t, tech_support_tool t
        = lit "Here are some steps to troubleshoot your issue with '"
          ++ issue t ++ lit "'."
        ∧ contains (issue t) (tech_support_tool t) = true
        ∧ List.length (tech_support_tool t) = (List.length (issue t) + 55)%nat)
  ∧ (∀ t1 t2, tech_support_tool t1 = tech_support_tool t2 → t1 = t2).
Proof.
  split.
  - intros t. unfold tech_support_tool. split; [|split].
    + reflexivity.
    + apply contains_mid.
    + rewrite !length_app. cbn. lia.
  - intros [i1] [i2]. unfold tech_support_tool. cbn [issue].
    intros H%app_inv_head%app_inv_tail. by subst.
Qed.

Lemma tech_support_tool_issue_witness :
  {| issue := lit "wifi" |} = {| issue := lit "wifi" |}.
Proof.
  apply (proj2 tech_support_tool_issue). reflexivity.
Defined.

(** X3. The replies of the two-field tools do not determine their
    inputs: the fields are interpolated without escaping, so text that
    looks like the separator can be moved from one field to the other.
    For all [a], [b], [c] the two inputs below differ and get the same
    reply. *)
Theorem two_field_tools_ambiguous (a b c : str) :
  (let b1 := {| customer_id := a ++ lit " regarding '" ++ b; billing_issue := c |} in
   let b2 := {| customer_id := a; billing_issue := b ++ lit " regarding '" ++ c |} in
   b1 ≠ b2 ∧ billing_status_tool b1 = billing_status_tool b2)
  ∧ (let sep := lit " has been processed successfully due to: " in
     let r1 := {| order_id := a ++ sep ++ b; refund_reason := c |} in
     let r2 := {| order_id := a; refund_reason := b ++ sep ++ c |} in
     r1 ≠ r2 ∧ refund_status_tool r1 = refund_status_tool r2).
Proof.
  split; cbn zeta; (split; [intros [= H _] | ]).
  - apply (f_equal (@List.length N)) in H. rewrite !length_app in H. cbn in H. lia.
  - unfold billing_status_tool. cbn [customer_id billing_issue].
    by rewrite <- !app_assoc.
  - apply (f_equal (@List.length N)) in H. rewrite !length_app in H. cbn in H. lia.
  - unfold refund_status_tool. cbn [order_id refund_reason].
    by rewrite <- !app_assoc.
Qed.

(** X4. Once the length of the first field is known, the reply of a
    two-field tool does determine its input: two billing inputs with
    customer ids of the same length and the same reply are equal, and
    likewise two refund inputs with order ids of the same length. *)
Theorem two_field_tools_injective_fixed_length :
  (∀ b1 b2, List.length (customer_id b1) = List.length (customer_id b2) →
            billing_status_tool b1 = billing_status_tool b2 → b1 = b2)
  ∧ (∀ r1 r2, List.length (order_id r1) = List.length (order_id r2) →
              refund_status_tool r1 = refund_status_tool r2 → r1 = r2).
Proof.
  split.
  - intros [c1 i1] [c2 i2]. unfold billing_status_tool.
    cbn [customer_id billing_issue]. intros Hl H%app_inv_head.
    apply app_inj_1 in H as [-> H]; [|done].
    apply app_inv_head, app_inv_tail in H. by subst.
  - intros [o1 r1] [o2 r2]. unfold refund_status_tool.
    cbn [order_id refund_reason]. intros Hl H%app_inv_head.
    apply app_inj_1 in H as [-> H]; [|done].
    apply app_inv_head, app_inv_head, app_inv_tail in H. by subst.
Qed.

Lemma two_field_tools_injective_fixed_length_witness :
  {| customer_id := lit "C-42"; billing_issue := lit "late fee" |}
  = {| customer_id := lit "C-42"; billing_issue := lit "late fee" |}
  ∧ {| order_id := lit "123"; refund_reason := lit "damaged" |}
    = {| order_id := lit "123"; refund_reason := lit "damaged" |}.
Proof.
  split.
  - apply (proj1 two_field_tools_injective_fixed_length); reflexivity.
  - apply (proj2 two_field_tools_injective_fixed_length); reflexivity.
Defined.

(** * Further properties of the escalation policy *)

(** X5. [handoff_decision] compares [input_type] with the three
    sensitive words as they are written, without trimming and without
    folding case: an [input_type] that is empty, or that holds any code
    point other than a lower-case ASCII letter, is never escalated. *)
Theorem handoff_decision_exact_match (p : HandoffParams) :
  input_type p = [] ∨ (∃ c, c ∈ input_type p ∧ (c < 97 ∨ 122 < c)%N) →
  handoff_decision p = handled_message.
Proof.
  intros H. destruct (handoff_decision_two_messages p) as [E|E]; [|done].
  apply handoff_decision_escalates in E.
  change (lit "legal") with [108; 101; 103; 97; 108]%N in E.
  change (lit "complaint")
    with [99; 111; 109; 112; 108; 97; 105; 110; 116]%N in E.
  change (lit "technical")
    with [116; 101; 99; 104; 110; 105; 99; 97; 108]%N in E.
  destruct H as [H | (c & Hc & Hr)].
  - rewrite H in E. by destruct E as [E|[E|E]].
  - destruct E as [E|[E|E]]; rewrite E in Hc;
      repeat (apply elem_of_cons in Hc as [->|Hc]; [lia|]);
      by apply elem_of_nil in Hc.
Qed.

Lemma handoff_decision_exact_match_witness :
  handoff_decision
    {| input_type := lit "Legal"; input_filter := None; on_handoff := None |}
  = handled_message
  ∧ handoff_decision
      {| input_type := lit "legal "; input_filter := None; on_handoff := None |}
    = handled_message
  ∧ handoff_decision
      {| input_type := lit ""; input_filter := None; on_handoff := None |}
    = handled_message.
Proof.
  split; [|split].
  - apply handoff_decision_exact_match. right. exists 76%N.
    split; [apply list_elem_of_here | lia].
  - apply handoff_decision_exact_match. right. exists 32%N.
    split; [|lia]. cbn. do 5 apply list_elem_of_further. apply list_elem_of_here.
  - apply handoff_decision_exact_match. left. reflexivity.
Defined.

Lemma validate_optional_str_inr (f : str) (data : gmap (list N) json) o :
  validate_optional_str f data = inr o ↔
  (o = None ∧ (data !! f = None ∨ data !! f = Some JNull))
  ∨ (∃ s, o = Some s ∧ data !! f = Some (JString s)).
Proof.
  unfold validate_optional_str.
  destruct (data !! f) as [[]|];
    (split;
     [ first [intros [= <-]; eauto 6 | intros [=]]
     | intros [[-> [?|?]] | (? & -> & ?)]; congruence ]).
Qed.

(** X6. Building [HandoffParams] succeeds exactly when [input_type]
    holds a string and each of [input_filter] and [on_handoff] is
    absent, null or a string; an absent or null optional field becomes
    [None], and the other values are taken as they are. *)
Theorem HandoffParams_validate_spec (data : gmap (list N) json) (p : HandoffParams) :
  HandoffParams_validate data = inr p ↔
  data !! lit "input_type" = Some (JString (input_type p))
  ∧ match input_filter p with
    | None => data !! lit "input_filter" = None
              ∨ data !! lit "input_filter" = Some JNull
    | Some s => data !! lit "input_filter" = Some (JString s)
    end
  ∧ match on_handoff p with
    | None => data !! lit "on_handoff" = None
              ∨ data !! lit "on_handoff" = Some JNull
    | Some s => data !! lit "on_handoff" = Some (JString s)
    end.
Proof.
  unfold HandoffParams_validate. split.
  - destruct (validate_str _ data) as [e1|t] eqn:E1;
      destruct (validate_optional_str (lit "input_filter") data) as [e2|f] eqn:E2;
      destruct (validate_optional_str (lit "on_handoff") data) as [e3|h] eqn:E3;
      try discriminate.
    intros [= <-]. cbn [input_type input_filter on_handoff].
    apply validate_str_inr in E1. apply validate_optional_str_inr in E2, E3.
    split; [done|]. split.
    + destruct E2 as [[-> ?] | (s & -> & ?)]; done.
    + destruct E3 as [[-> ?] | (s & -> & ?)]; done.
  - destruct p as [t f h]. cbn [input_type input_filter on_handoff].
    intros (H1 & H2 & H3). apply validate_str_inr in H1. rewrite H1.
    assert (validate_optional_str (lit "input_filter") data = inr f) as ->.
    { apply validate_optional_str_inr. destruct f; eauto. }
    assert (validate_optional_str (lit "on_handoff") data = inr h) as ->.
    { apply validate_optional_str_inr. destruct h; eauto. }
    done.
Qed.

Lemma HandoffParams_validate_input_type
    (data : gmap (list N) json) (p : HandoffParams) :
  HandoffParams_validate data = inr p →
  data !! lit "input_type" = Some (JString (input_type p)).
Proof.
  unfold HandoffParams_validate.
  destruct (validate_str _ data) as [e1|t] eqn:E1;
    destruct (validate_optional_str (lit "input_filter") data) as [e2|f];
    destruct (validate_optional_str (lit "on_handoff") data) as [e3|h];
    try discriminate.
  intros [= <-]. by apply validate_str_inr.
Qed.

(** X7. For validated [HandoffParams] the decision is a function of the
    [input_type] key of the raw data alone: the request is escalated
    exactly when that key holds "legal", "complaint" or "technical",
    whatever the optional keys hold. *)
Theorem HandoffParams_decision_by_key (data : gmap (list N) json) (p : HandoffParams) :
  HandoffParams_validate data = inr p →
  (handoff_decision p = escalation_message ↔
   data !! lit "input_type" = Some (JString (lit "legal"))
   ∨ data !! lit "input_type" = Some (JString (lit "complaint"))
   ∨ data !! lit "input_type" = Some (JString (lit "technical")))
  ∧ (handoff_decision p = handled_message ↔
     ¬ (data !! lit "input_type" = Some (JString (lit "legal"))
        ∨ data !! lit "input_type" = Some (JString (lit "complaint"))
        ∨ data !! lit "input_type" = Some (JString (lit "technical")))).
Proof.
  intros Ht%HandoffParams_validate_input_type.
  assert (handoff_decision p = escalation_message ↔
          data !! lit "input_type" = Some (JString (lit "legal"))
          ∨ data !! lit "input_type" = Some (JString (lit "complaint"))
          ∨ data !! lit "input_type" = Some (JString (lit "technical"))) as Hesc.
  { rewrite handoff_decision_escalates, Ht.
    split; intros [H|[H|H]]; first [ rewrite H; tauto | injection H; tauto ]. }
  split; [done|]. rewrite <- Hesc.
  destruct (handoff_decision_two_messages p) as [E|E]; rewrite E;
    pose proof messages_differ; split; intros; congruence.
Qed.

Lemma HandoffParams_decision_by_key_witness :
  handoff_decision
    {| input_type := lit "legal"; input_filter := None;
       on_handoff := Some (lit "notify") |}
  = escalation_message.
Proof.
  refine (proj2 (proj1 (HandoffParams_decision_by_key
    (<[lit "input_type" := JString (lit "legal")]>
       {[ lit "on_handoff" := JString (lit "notify") ]})
    {| input_type := lit "legal"; input_filter := None;
       on_handoff := Some (lit "notify") |} _)) _).
  - vm_compute. reflexivity.
  - left. vm_compute. reflexivity.
Defined.

Lemma HandoffParams_validate_spec_witness :
  HandoffParams_validate {[ lit "input_type" := JString (lit "billing") ]}
  = inr {| input_type := lit "billing"; input_filter := None; on_handoff := None |}.
Proof.
  apply (proj2 (HandoffParams_validate_spec
                  {[ lit "input_type" := JString (lit "billing") ]}
                  {| input_type := lit "billing"; input_filter := None;
                     on_handoff := None |})).
  split; [|split]; [| left | left]; vm_compute; reflexivity.
Defined.

(** * Further properties of the input models *)

Lemma validate_str_cases (f : str) (data : gmap (list N) json) :
  (∃ s, validate_str f data = inr s ∧ str_field_error data f = None)
  ∨ (∃ e, validate_str f data = inl [e] ∧ str_field_error data f = Some e).
Proof.
  unfold validate_str, str_field_error.
  destruct (data !! f) as [[]|]; eauto.
Qed.

(** X8. Validation of an input model is not fail-fast: when it fails,
    the [ValidationError] lists exactly one error for every declared
    field that is absent (kind [missing]) or holds a value that is not a
    string (kind [string_type]), in the order of declaration; and it
    succeeds exactly when no field has an error. *)
Theorem model_validate_errors (cls : InputModel) (data : gmap (list N) json) :
  let errs := omap (str_field_error data) (model_fields cls) in
  (errs = [] → ∃ v, model_validate cls data = inr v)
  ∧ (errs ≠ [] → model_validate cls data = inl (ValidationError errs)).
Proof.
  destruct cls; cbn -[lit validate_str str_field_error];
    unfold BillingInput_validate, RefundInput_validate,
      TechSupportInput_validate, GeneralInfoInput_validate;
    repeat match goal with
      | |- context [validate_str ?f data] =>
          destruct (validate_str_cases f data) as [(? & -> & ->) | (? & -> & ->)]
      end;
    cbn -[lit]; split; intros ?; try done; eauto.
Qed.

Lemma model_validate_errors_witness :
  model_validate RefundInput_cls {[ lit "refund_reason" := JNumber 7 ]}
  = inl (ValidationError
           [{| err_type := missing; loc := lit "order_id" |};
            {| err_type := string_type; loc := lit "refund_reason" |}]).
Proof.
  refine (proj2 (model_validate_errors RefundInput_cls
                   {[ lit "refund_reason" := JNumber 7 ]}) _).
  vm_compute. discriminate.
Defined.

(** X9. Validation reads the declared fields and nothing else: two
    JSON objects that agree on the declared fields of a model give the
    same result, so keys the model does not declare are ignored and do
    not make validation fail. *)
Theorem model_validate_declared_fields_only
    (cls : InputModel) (d1 d2 : gmap (list N) json) :
  (∀ f, f ∈ model_fields cls → d1 !! f = d2 !! f) →
  model_validate cls d1 = model_validate cls d2.
Proof.
  intros H.
  assert (∀ f, f ∈ model_fields cls → validate_str f d1 = validate_str f d2) as Hv.
  { intros f Hf. unfold validate_str. by rewrite (H f Hf). }
  destruct cls; cbn [model_fields model_validate] in *;
    unfold BillingInput_validate, RefundInput_validate,
      TechSupportInput_validate, GeneralInfoInput_validate;
    rewrite !Hv; try done;
    repeat first [apply list_elem_of_here | apply list_elem_of_further].
Qed.

Lemma model_validate_declared_fields_only_witness :
  model_validate GeneralInfoInput_cls
    (<[lit "priority" := JNumber 1]> {[ lit "topic" := JString (lit "shipping") ]})
  = model_validate GeneralInfoInput_cls {[ lit "topic" := JString (lit "shipping") ]}.
Proof.
  apply model_validate_declared_fields_only.
  intros f Hf. apply list_elem_of_singleton in Hf as ->.
  vm_compute. reflexivity.
Defined.

(** * Further properties of the dispatch *)

(** X10. The handoffs of [main_agent] are told apart by their tool
    names: two handoffs with the same tool name are the same handoff.
    Each of them leads to an agent that has no handoffs of its own, so
    a request is handed off at most once. *)
Theorem main_agent_handoffs_unambiguous (h1 h2 : Handoff.t Agent) :
  h1 ∈ handoffs main_agent → h2 ∈ handoffs main_agent →
  (Handoff.tool_name_override h1 = Handoff.tool_name_override h2 → h1 = h2)
  ∧ handoffs (Handoff.agent h1) = [].
Proof.
  cbn [handoffs main_agent]. intros H1 H2.
  repeat (apply elem_of_cons in H1 as [-> | H1]);
    try (by apply elem_of_nil in H1);
    (split; [|reflexivity]);
    repeat (apply elem_of_cons in H2 as [-> | H2]);
    try (by apply elem_of_nil in H2);
    first [ reflexivity | intros H; vm_compute in H; discriminate H ].
Qed.

Lemma main_agent_handoffs_unambiguous_witness :
  handoffs refund_agent = [].
Proof.
  refine (proj2 (main_agent_handoffs_unambiguous
            (handoff refund_agent (lit "refund_status_tool")
               (lit "Handles refund requests.")
               RefundInput_cls (Some remove_all_tools) custom_refund_handler)
            (handoff refund_agent (lit "refund_status_tool")
               (lit "Handles refund requests.")
               RefundInput_cls (Some remove_all_tools) custom_refund_handler)
            _ _));
    apply list_elem_of_further, list_elem_of_here.
Defined.



(** * Further properties of the exit test *)

Lemma lstrip_all_space (ws : str) :
  Forall (λ c, isspace c = true) ws → lstrip ws = [].
Proof. induction 1 as [|c ws Hc _ IH]; [done|]. cbn. by rewrite Hc. Qed.

Lemma lstrip_app_space (ws s : str) :
  Forall (λ c, isspace c = true) ws → lstrip (ws ++ s) = lstrip s.
Proof. induction 1 as [|c ws Hc _ IH]; [done|]. cbn. by rewrite Hc. Qed.

Lemma rstrip_app_space (s ws : str) :
  Forall (λ c, isspace c = true) ws → rstrip (s ++ ws) = rstrip s.
Proof.
  intros H. unfold rstrip. rewrite rev_app_distr, lstrip_app_space; [done|].
  by apply Forall_rev.
Qed.

Lemma lstrip_app_r (s ws : str) :
  Forall (λ c, isspace c = true) ws →
  lstrip (s ++ ws) = lstrip s ++ ws ∨ (lstrip s = [] ∧ lstrip (s ++ ws) = []).
Proof.
  intros H. induction s as [|c s IH]; cbn.
  - right. split; [done|]. by apply lstrip_all_space.
  - destruct (isspace c); [exact IH | by left].
Qed.

(** X13. [strip()] removes white space around a line and nothing else
    of it: padding a line with white space on either side does not
    change what [strip()] returns, so the exit test gives the same
    answer on the padded line. *)
Theorem is_exit_padding (ucd : UnicodeData) (ws1 line ws2 : str) :
  Forall (λ c, isspace c = true) ws1 → Forall (λ c, isspace c = true) ws2 →
  strip (ws1 ++ line ++ ws2) = strip line
  ∧ is_exit ucd (ws1 ++ line ++ ws2) = is_exit ucd line.
Proof.
  intros H1 H2.
  assert (strip (ws1 ++ line ++ ws2) = strip line) as E.
  { unfold strip. rewrite (lstrip_app_space _ _ H1).
    destruct (lstrip_app_r line ws2 H2) as [-> | [-> ->]]; [|done].
    by apply rstrip_app_space. }
  split; [done|]. unfold is_exit. by rewrite E.
Qed.

Lemma is_exit_padding_witness :
  is_exit ascii_ucd (lit "  " ++ lit "Exit" ++ lit " ") = is_exit ascii_ucd (lit "Exit").
Proof.
  apply (is_exit_padding ascii_ucd (lit "  ") (lit "Exit") (lit " "));
    repeat constructor.
Defined.

(** X14. A blank line is not the exit keyword: a line that is empty or
    holds white space only is stripped to the empty string and fails
    the exit test, with any Unicode tables. *)
Theorem is_exit_blank (ucd : UnicodeData) (line : str) :
  Forall (λ c, isspace c = true) line →
  strip line = [] ∧ is_exit ucd line = false.
Proof.
  intros H.
  assert (strip line = []) as E.
  { unfold strip. by rewrite (lstrip_all_space _ H). }
  split; [done|]. unfold is_exit. by rewrite E.
Qed.

Lemma is_exit_blank_witness :
  is_exit ascii_ucd [] = false ∧ is_exit ascii_ucd [32; 9; 160]%N = false.
Proof.
  split.
  - apply (is_exit_blank ascii_ucd []). constructor.
  - apply (is_exit_blank ascii_ucd [32; 9; 160]%N). repeat constructor.
Defined.

Lemma imap_lower_ascii (l : str) : ∀ g : nat → N → list N,
  (∀ i c, (c < 128)%N → g i c = [ascii_lower c]) →
  Forall (λ c, (c < 128)%N) l →
  List.concat (imap g l) = ascii_lower <$> l.
Proof.
  induction l as [|c l IH]; intros g Hg H; [done|].
  apply Forall_cons in H as [Hc H].
  cbn [imap List.concat]. rewrite (Hg _ _ Hc). cbn. f_equal.
  apply IH; [|done]. intros i d. apply Hg.
Qed.

Lemma lower_ascii (ucd : UnicodeData) (t : str) :
  Forall (λ c, (c < 128)%N) t → lower ucd t = ascii_lower <$> t.
Proof.
  intros H. apply imap_lower_ascii; [|done].
  intros i c Hc. unfold lower_ucs4, ascii_lower.
  destruct (c =? 931)%N eqn:E; [apply N.eqb_eq in E; lia|].
  apply N.ltb_lt in Hc. by rewrite Hc.
Qed.

Lemma lstrip_Forall (P : N → Prop) (s : str) : Forall P s → Forall P (lstrip s).
Proof.
  induction 1 as [|c s Hc H IH]; [done|]. cbn.
  destruct (isspace c); [done | by constructor].
Qed.

Lemma strip_Forall (P : N → Prop) (s : str) : Forall P s → Forall P (strip s).
Proof.
  intros H. unfold strip, rstrip.
  by apply Forall_rev, lstrip_Forall, Forall_rev, lstrip_Forall.
Qed.

(** X15. On a line of ASCII text neither [lower()] nor the exit test
    consults the Unicode tables: [lower()] maps A-Z to a-z and leaves
    every other character alone, the length is kept, and the exit test
    gives the same answer with any two tables. *)
Theorem is_exit_ascii (ucd1 ucd2 : UnicodeData) (line : str) :
  Forall (λ c, (c < 128)%N) line →
  lower ucd1 line = ascii_lower <$> line
  ∧ List.length (lower ucd1 line) = List.length line
  ∧ is_exit ucd1 line = is_exit ucd2 line.
Proof.
  intros H. rewrite (lower_ascii ucd1 line H). split; [done|].
  split; [apply length_fmap|].
  unfold is_exit.
  by rewrite !lower_ascii by by apply strip_Forall.
Qed.

Lemma is_exit_ascii_witness :
  lower ascii_ucd (lit "Hello, World") = lit "hello, world".
Proof.
  refine (eq_trans (proj1 (is_exit_ascii ascii_ucd ascii_ucd (lit "Hello, World") _)) _).
  - repeat constructor.
  - reflexivity.
Defined.

(** * Further properties of the chat loop *)

Section MainTranscript.
Variable ucd : UnicodeData.
Context {World : Type}.
Variable Runner_run : Agent → str → World → World * (exception + str).

Local Abbreviation loop := (main_loop ucd Runner_run).
Local Abbreviation chat := (main ucd Runner_run).

Lemma main_loop_calls : ∀ stdin w,
  runner_inputs (loop w stdin).1 `prefix_of` stdin
  ∧ Forall (λ e, match e with
                 | RunnerRun a i => a = main_agent ∧ is_exit ucd i = false
                 | _ => True
                 end) (loop w stdin).1.
Proof.
  induction stdin as [|l stdin IH]; intros w.
  - cbn. split; [done | by repeat constructor].
  - destruct (is_exit ucd l) eqn:Hl.
    { rewrite main_loop_exit by done. cbn.
      split; [apply prefix_nil | by repeat constructor]. }
    destruct (Runner_run main_agent l w) as [w' [e|out]] eqn:E.
    { rewrite (main_loop_raise _ _ _ _ _ _ _ Hl E). cbn.
      split; [apply prefix_cons, prefix_nil | by repeat constructor]. }
    rewrite (main_loop_reply _ _ _ _ _ _ _ Hl E). cbn [fst].
    destruct (IH w') as [IH1 IH2]. rewrite runner_inputs_turn.
    split; [by apply prefix_cons | by repeat constructor].
Qed.

(** X16. Whatever the backend does, the lines given to [Runner.run]
    are the first lines of the input, one call per line, in order and
    as they were typed (not stripped, not lower-cased); every call
    starts from [main_agent], and a line that passes the exit test is
    never given to [Runner.run]. *)
Theorem main_runner_calls (w : World) (stdin : list str) :
  runner_inputs (chat w stdin).1 `prefix_of` stdin
  ∧ Forall (λ e, match e with
                 | RunnerRun a i => a = main_agent ∧ is_exit ucd i = false
                 | _ => True
                 end) (chat w stdin).1.
Proof.
  destruct (main_loop_calls stdin w) as [H1 H2].
  rewrite main_fst. split; [done|].
  unfold main. destruct (main_loop _ _ w stdin) as [tr c].
  by constructor.
Qed.

Lemma main_printed (w : World) (stdin : list str) :
  printed (chat w stdin).1
  = lit "Welcome to ACME Corp Customer Support! Type 'exit' to quit."
    :: printed (loop w stdin).1.
Proof. unfold main. by destruct (main_loop _ _ w stdin). Qed.

Lemma main_loop_printed_exit (f : str → str) (x : str) (rest : list str) :
  (∀ l w0, ∃ w1, Runner_run main_agent l w0 = (w1, inr (f l))) →
  is_exit ucd x = true →
  ∀ pre w,
    Forall (λ l, is_exit ucd l = false) pre →
    printed (loop w (pre ++ x :: rest)).1
    = ((λ l, lit "SupportBot: " ++ f l ++ [10%N]) <$> pre)
      ++ [lit "Thank you for contacting ACME Corp. Have a great day!"].
Proof.
  intros Hf Hx pre. induction pre as [|l pre IH]; intros w Hpre.
  - cbn [app]. by rewrite main_loop_exit.
  - apply Forall_cons in Hpre as [Hl Hpre].
    destruct (Hf l w) as (w' & E). cbn [app].
    rewrite (main_loop_reply _ _ _ _ _ _ _ Hl E). cbn [fst].
    by rewrite printed_turn, (IH w' Hpre).
Qed.

Lemma main_loop_printed_eof (f : str → str) :
  (∀ l w0, ∃ w1, Runner_run main_agent l w0 = (w1, inr (f l))) →
  ∀ pre w,
    Forall (λ l, is_exit ucd l = false) pre →
    printed (loop w pre).1
    = (λ l, lit "SupportBot: " ++ f l ++ [10%N]) <$> pre.
Proof.
  intros Hf pre. induction pre as [|l pre IH]; intros w Hpre; [done|].
  apply Forall_cons in Hpre as [Hl Hpre].
  destruct (Hf l w) as (w' & E).
  rewrite (main_loop_reply _ _ _ _ _ _ _ Hl E). cbn [fst].
  by rewrite printed_turn, (IH w' Hpre).
Qed.

(** X17. What [main] prints when [Runner.run] answers every line [l]
    with the final output [f l].  On lines that do not pass the exit
    test followed by one that does, it prints the welcome banner, then
    for each of these lines, in order, "SupportBot: " + [f l] + a
    newline, then the farewell, and nothing else.  On lines without an
    exit line it prints the banner and the same replies, and no
    farewell. *)
Theorem main_transcript (f : str → str) (w : World) (pre : list str) :
  (∀ l w0, ∃ w1, Runner_run main_agent l w0 = (w1, inr (f l))) →
  Forall (λ l, is_exit ucd l = false) pre →
  (∀ x rest, is_exit ucd x = true →
     printed (chat w (pre ++ x :: rest)).1
     = lit "Welcome to ACME Corp Customer Support! Type 'exit' to quit."
       :: ((λ l, lit "SupportBot: " ++ f l ++ [10%N]) <$> pre)
       ++ [lit "Thank you for contacting ACME Corp. Have a great day!"])
  ∧ printed (chat w pre).1
    = lit "Welcome to ACME Corp Customer Support! Type 'exit' to quit."
      :: ((λ l, lit "SupportBot: " ++ f l ++ [10%N]) <$> pre).
Proof.
  intros Hf Hpre. split.
  - intros x rest Hx.
    by rewrite main_printed, (main_loop_printed_exit f x rest Hf Hx pre w Hpre).
  - by rewrite main_printed, (main_loop_printed_eof f Hf pre w Hpre).
Qed.

(** X18. An input that runs out without an exit line ends in
    [EOFError]: when no line passes the exit test and every call of
    [Runner.run] returns, [main] gives every line to [Runner.run] and
    then raises [EOFError] from [input()]; it does not return, and the
    farewell is not printed. *)
Theorem main_without_exit (w : World) (stdin : list str) :
  Forall (λ l, is_exit ucd l = false) stdin →
  (∀ l w0, ∃ w1 out, Runner_run main_agent l w0 = (w1, inr out)) →
  (chat w stdin).2 = Raised EOFError
  ∧ runner_inputs (chat w stdin).1 = stdin
  ∧ lit "Thank you for contacting ACME Corp. Have a great day!"
    ∉ printed (chat w stdin).1.
Proof.
  intros Hno Hrun.
  assert ((loop w stdin).2 = Raised EOFError
          ∧ runner_inputs (loop w stdin).1 = stdin
          ∧ lit "Thank you for contacting ACME Corp. Have a great day!"
            ∉ printed (loop w stdin).1) as (H1 & H2 & H3).
  { revert w. induction Hno as [|l stdin Hl Hno IH]; intros w.
    - cbn. repeat split; try done. apply not_elem_of_nil.
    - destruct (Hrun l w) as (w' & out & E).
      rewrite (main_loop_reply _ _ _ _ _ _ _ Hl E). cbn [fst snd].
      destruct (IH w') as (IH1 & IH2 & IH3).
      rewrite runner_inputs_turn, printed_turn, IH2.
      repeat split; try done.
      intros [H|H]%elem_of_cons; [|done].
      apply (f_equal (λ s, s !! 0%nat)) in H. cbn in H. discriminate H. }
  rewrite main_snd, main_fst. repeat split; try done.
  unfold main. destruct (main_loop _ _ w stdin) as [tr c]. cbn [fst] in *.
  change (printed (Print ?s :: tr)) with (s :: printed tr).
  intros [H|H]%elem_of_cons; [|done].
  apply (f_equal (λ s, s !! 0%nat)) in H. cbn in H. discriminate H.
Qed.
End MainTranscript.

Lemma main_without_exit_witness :
  (main ascii_ucd echo_Runner tt [lit "hello"; lit ""; lit "quit"]).2
  = Raised EOFError
  ∧ runner_inputs (main ascii_ucd echo_Runner tt [lit "hello"; lit ""; lit "quit"]).1
    = [lit "hello"; lit ""; lit "quit"].
Proof.
  destruct (main_without_exit ascii_ucd echo_Runner tt
              [lit "hello"; lit ""; lit "quit"]) as (H1 & H2 & _).
  - repeat constructor.
  - intros l w0. by exists w0, l.
  - by split.
Defined.

Lemma main_transcript_witness :
  printed (main ascii_ucd echo_Runner tt
             ([lit "hello"; lit "refund"] ++ lit "exit" :: [lit "late"])).1
  = [lit "Welcome to ACME Corp Customer Support! Type 'exit' to quit.";
     lit "SupportBot: hello" ++ [10%N];
     lit "SupportBot: refund" ++ [10%N];
     lit "Thank you for contacting ACME Corp. Have a great day!"].
Proof.
  refine (proj1 (main_transcript ascii_ucd echo_Runner (λ l, l) tt
                   [lit "hello"; lit "refund"] _ _) (lit "exit") [lit "late"] _).
  - intros l w0. by exists w0.
  - repeat constructor.
  - reflexivity.
Defined.

(** * The texts of different tools *)

(** X19. The replies tell their origin: whatever the inputs, the
    replies of two different tools are different. *)
Theorem tools_distinct
    (b : BillingInput) (r : RefundInput) (g : GeneralInfoInput)
    (t : TechSupportInput) :
  billing_status_tool b ≠ refund_status_tool r
  ∧ billing_status_tool b ≠ general_info_tool g
  ∧ billing_status_tool b ≠ tech_support_tool t
  ∧ refund_status_tool r ≠ general_info_tool g
  ∧ refund_status_tool r ≠ tech_support_tool t
  ∧ general_info_tool g ≠ tech_support_tool t.
Proof.
  repeat split; intros H;
    first [ apply (f_equal (λ s, s !! 0%nat)) in H; discriminate H
          | apply (f_equal (λ s, s !! 5%nat)) in H; discriminate H ].
Qed.

(** X20. The escalation policy and the dispatch table do not meet: for
    every handoff of [main_agent], neither its tool name nor the name
    of its agent is a sensitive category, so [handoff_decision] asked
    about either answers that the request was handled. *)
Theorem handoffs_not_sensitive
    (h : Handoff.t Agent) (f o : option str) :
  h ∈ handoffs main_agent →
  handoff_decision {| input_type := Handoff.tool_name_override h;
                      input_filter := f; on_handoff := o |}
  = handled_message
  ∧ handoff_decision {| input_type := name (Handoff.agent h);
                        input_filter := f; on_handoff := o |}
    = handled_message.
Proof.
  cbn [handoffs main_agent]. intros H.
  repeat (apply elem_of_cons in H as [-> | H]);
    try (by apply elem_of_nil in H); by split.
Qed.

Lemma handoffs_not_sensitive_witness :
  handoff_decision {| input_type := lit "tech_support_tool";
                      input_filter := None; on_handoff := None |}
  = handled_message
  ∧ handoff_decision {| input_type := lit "tech_support_agent";
                        input_filter := None; on_handoff := None |}
    = handled_message.
Proof.
  apply (handoffs_not_sensitive
           (handoff tech_support_agent (lit "tech_support_tool")
              (lit "Handles technical support queries.")
              TechSupportInput_cls (Some remove_all_tools)
              custom_tech_support_handler) None None).
  do 3 apply list_elem_of_further. apply list_elem_of_here.
Defined.
